(** * JAM: Junk Accumulation Model (jam_app.py)

    A shallow embedding of the numerical core of [jam_app.py]: the vector
    field [jam_model], the runner [run_simulation] with its derived series
    Rt, the sidebar logic that feeds them (number inputs, sliders and the
    "Reset to paper baseline" button acting on [st.session_state]) and the
    display of the results.

    Numbers.  The script computes with Python numbers (ints from the integer
    sliders, floats elsewhere, numpy arrays of floats for the trajectory).
    Three readings of its arithmetic are given, each with the order and
    association of the source expressions:
    - exact rationals [Q] ([jam_model], [Rt_point]): what the formulas say;
    - every operation followed by a rounding [rnd : Q -> Q]
      ([jam_model_rnd], [Rt_point_rnd]), with [fl 53], rounding to nearest
      with ties to even on 53 significant bits, as the rounding of binary64
      away from overflow and underflow;
    - binary64 itself, on primitive floats ([Binary64.jam_model],
      [Binary64.Rt_point]), for evaluation at given inputs.
    The numpy division that builds Rt returns a value of type [ext], which
    has the infinities and NaN. *)

From Stdlib Require Import QArith Qabs Qround Qpower Lqa Lia.
From Stdlib Require PrimFloat FloatOps SpecFloat.
From stdpp Require Import gmap strings list fin_maps.

Local Open Scope Q_scope.

(** ** Data model *)

(** The state vector [y = [S, I, R]]; also the type of a derivative. *)
Definition state : Type := Q * Q * Q.

Definition state_eq (a b : state) : Prop :=
  a.1.1 == b.1.1 /\ a.1.2 == b.1.2 /\ a.2 == b.2.

Definition vadd (a b : state) : state :=
  (a.1.1 + b.1.1, a.1.2 + b.1.2, a.2 + b.2).

Definition vscale (c : Q) (a : state) : state :=
  (c * a.1.1, c * a.1.2, c * a.2).

Definition vzero : state := (0, 0, 0).

(** A float as numpy produces it from a division: a number, an infinity or
    NaN. *)
Inductive ext : Type :=
  | Finite (q : Q)
  | PosInf
  | NegInf
  | NaN.


Definition is_finite (x : ext) : bool :=
  match x with Finite _ => true | _ => false end.

(** [a / b] on numpy floats: a zero divisor raises nothing, it gives an
    infinity with the sign of the dividend, or NaN for 0/0. *)
Definition np_divide (a b : Q) : ext :=
  if Qeq_bool b 0 then
    match a ?= 0 with
    | Gt => PosInf
    | Lt => NegInf
    | Eq => NaN
    end
  else Finite (a / b).

(** [a / b] on Python scalars raises ZeroDivisionError on a zero divisor.
    On floats a product of two non-zero numbers can underflow to zero; the
    exact test here does not see that case. *)
Definition py_div (a b : Q) : option Q :=
  if Qeq_bool b 0 then None else Some (a / b).

(** ** Model definition (jam_app.py, lines 51-56) *)

Definition jam_model (t : Q) (y : state) (Λ β θ γ μ_S μ_I : Q) : state :=
  let S := y.1.1 in
  let I := y.1.2 in
  let R := y.2 in
  let dSdt := Λ - β * S * I - μ_S * S in
  let dIdt := (1 + θ) * β * S * I - (γ + μ_I) * I in
  let dRdt := γ * I + μ_S * S + μ_I * I in
  (dSdt, dIdt, dRdt).

Definition dS (d : state) : Q := d.1.1.
Definition dI (d : state) : Q := d.1.2.
Definition dR (d : state) : Q := d.2.

(** ** Simulation runner (jam_app.py, lines 59-65) *)

(** Modelled from the spec: [np.linspace] is numpy's, not part of the
    sources.  The spec asks for [num] evenly spaced sample times over
    [start, stop], both endpoints included; numpy computes sample [i] as
    [i * step + start] with [step = (stop - start) / (num - 1)] and then
    stores [stop] itself in the last slot. *)
Definition linspace (start stop : Q) (num : nat) : list Q :=
  let div := inject_Z (Z.of_nat num - 1) in
  let step := (stop - start) / div in
  let y := (fun i : nat => inject_Z (Z.of_nat i) * step + start) <$> seq 0 num in
  if (1 <? num)%nat then <[pred num := stop]> y else y.

(** The part of scipy's [OdeResult] the script can see: the sample times
    reached and the solution there.  [sol.y] is an array of shape (3, n);
    it is kept here as its n columns, so that its three rows have one
    length by construction. *)
Record OdeResult : Type := { sol_t : list Q; sol_y : list state }.

(** [solve_ivp(fun, t_span, y0, t_eval=...)], with [args] already applied to
    [fun].  scipy's integrator is not part of the sources: the runner takes
    it as an argument. *)
Definition solver : Type :=
  (Q -> state -> state) -> Q * Q -> state -> list Q -> OdeResult.

(** The element of the broadcast [((1 + θ) * β * S) / (γ + μ_I)] at one
    entry [s] of the array [S]. *)
Definition Rt_point (θ β γ μ_I s : Q) : ext :=
  np_divide ((1 + θ) * β * s) (γ + μ_I).

Definition run_simulation (solve_ivp : solver) (y0 : state)
    (Λ β θ γ μ_S μ_I T : Q)
    : list Q * list Q * list Q * list Q * list ext :=
  let t_span := (0, T) in
  let t_eval := linspace 0 T 1000 in
  let sol :=
    solve_ivp (fun t y => jam_model t y Λ β θ γ μ_S μ_I) t_span y0 t_eval in
  let S := (fun c : state => c.1.1) <$> sol_y sol in
  let I := (fun c : state => c.1.2) <$> sol_y sol in
  let R := (fun c : state => c.2) <$> sol_y sol in
  let Rt := Rt_point θ β γ μ_I <$> S in
  (t_eval, S, I, R, Rt).

(** The five components of the returned tuple. *)
Definition out_t (r : list Q * list Q * list Q * list Q * list ext) : list Q :=
  r.1.1.1.1.
Definition out_S (r : list Q * list Q * list Q * list Q * list ext) : list Q :=
  r.1.1.1.2.
Definition out_I (r : list Q * list Q * list Q * list Q * list ext) : list Q :=
  r.1.1.2.
Definition out_R (r : list Q * list Q * list Q * list Q * list ext) : list Q :=
  r.1.2.
Definition out_Rt (r : list Q * list Q * list Q * list Q * list ext) : list ext :=
  r.2.

(** ** Sidebar (jam_app.py, lines 19-48) *)

(** What the visitor did with the widgets that have no key.  The sliders
    with a key live in [st.session_state], a dictionary from the key to the
    current value, which Streamlit fills in before the script runs. *)
Record visitor : Type := {
  typed_S0 : option Q;
  typed_I0 : option Q;
  typed_R0 : option Q;
  clicked_reset : bool;
  moved_T : option Q
}.

(** [st.sidebar.number_input(label, value=v)]: what was typed, else [v]. *)
Definition number_input (typed : option Q) (value : Q) : Q :=
  default value typed.

(** [st.sidebar.slider(label, lo, hi, v, key=k)]: the session state's entry
    for [k] when it has one, else the default [v].  The range check of
    Streamlit on [lo] and [hi] is not modelled. *)
Definition slider (session_state : gmap string Q) (key : string) (value : Q)
    : Q :=
  default value (session_state !! key).

(** The body of [if st.sidebar.button("Reset to paper baseline")]. *)
Definition reset_to_paper_baseline (S0 I0 : Q) (session_state : gmap string Q)
    : option (gmap string Q) :=
  let session_state := <["Λ" := 2262]> session_state in
  b ← py_div 9 (S0 * I0);
  let session_state := <["β" := b]> session_state in
  let session_state := <["θ" := 29]> session_state in
  let session_state := <["γ" := 0]> session_state in
  m_S ← py_div 250 S0;
  let session_state := <["μ_S" := m_S]> session_state in
  m_I ← py_div 450 I0;
  Some (<["μ_I" := m_I]> session_state).

(** The values the sidebar hands to [run_simulation]. *)
Record sidebar_values : Type := {
  sb_S0 : Q; sb_I0 : Q; sb_R0 : Q;
  sb_Λ : Q; sb_β : Q; sb_θ : Q; sb_γ : Q; sb_μ_S : Q; sb_μ_I : Q;
  sb_T : Q
}.

(** One run of the script down to line 48; [None] is an exception. *)
Definition sidebar (v : visitor) (session_state : gmap string Q)
    : option sidebar_values :=
  let S0 := number_input (typed_S0 v) 6768 in
  let I0 := number_input (typed_I0 v) 34000 in
  let R0 := number_input (typed_R0 v) 0 in
  session_state ←
    (if clicked_reset v then reset_to_paper_baseline S0 I0 session_state
     else Some session_state);
  let Λ := slider session_state "Λ" 2262 in
  b ← py_div 9 (S0 * I0);
  let β := slider session_state "β" b in
  let θ := slider session_state "θ" 29 in
  let γ := slider session_state "γ" 0 in
  m_S ← py_div 450 S0;
  let μ_S := slider session_state "μ_S" m_S in
  m_I ← py_div 250 I0;
  let μ_I := slider session_state "μ_I" m_I in
  let T := default 50 (moved_T v) in
  Some {| sb_S0 := S0; sb_I0 := I0; sb_R0 := R0;
          sb_Λ := Λ; sb_β := β; sb_θ := θ; sb_γ := γ;
          sb_μ_S := μ_S; sb_μ_I := μ_I; sb_T := T |}.

(** Line 68: the script calls the runner on the sidebar's values. *)
Definition run_model (solve_ivp : solver) (v : visitor)
    (session_state : gmap string Q)
    : option (list Q * list Q * list Q * list Q * list ext) :=
  sb ← sidebar v session_state;
  Some (run_simulation solve_ivp (sb_S0 sb, sb_I0 sb, sb_R0 sb)
          (sb_Λ sb) (sb_β sb) (sb_θ sb) (sb_γ sb) (sb_μ_S sb) (sb_μ_I sb)
          (sb_T sb)).

(** A first visit: nothing typed, nothing clicked, an empty session state. *)
Definition first_visit : visitor :=
  {| typed_S0 := None; typed_I0 := None; typed_R0 := None;
     clicked_reset := false; moved_T := None |}.

(** The same visitor pressing "Reset to paper baseline". *)
Definition reset_click : visitor :=
  {| typed_S0 := None; typed_I0 := None; typed_R0 := None;
     clicked_reset := true; moved_T := None |}.

(** ** Integrators *)

(** The weighted sum of the slopes of a list of stages: each stage is a
    weight and the point [(t, y)] where the field is evaluated. *)
Fixpoint slope_sum (f : Q -> state -> state) (stages : list (Q * Q * state))
    : state :=
  match stages with
  | [] => vzero
  | (b, t, y) :: stages' => vadd (vscale b (f t y)) (slope_sum f stages')
  end.

(** Modelled from the spec: the integrator is a Runge-Kutta scheme with
    dense output.  Every state it reports is the initial state or comes from
    a reported state by adding a step size times a weighted sum of
    evaluations of the field. *)
Inductive rk_reach (f : Q -> state -> state) (y0 : state) : state -> Prop :=
  | rk_init y :
      state_eq y y0 -> rk_reach f y0 y
  | rk_step y y' h stages :
      rk_reach f y0 y ->
      state_eq y' (vadd y (vscale h (slope_sum f stages))) ->
      rk_reach f y0 y'.

Definition rk_solver (solve_ivp : solver) : Prop :=
  forall f t_span y0 t_eval,
    Forall (rk_reach f y0) (sol_y (solve_ivp f t_span y0 t_eval)).

(** Fractions in lowest terms, component by component. *)
Definition vred (a : state) : state := (Qred a.1.1, Qred a.1.2, Qred a.2).

(** Forward Euler from one sample time to the next, for at most [budget]
    steps. *)
Fixpoint euler_steps (f : Q -> state -> state) (budget : nat) (t : Q)
    (y : state) (ts : list Q) : list state :=
  match budget, ts with
  | Datatypes.S budget', t' :: ts' =>
      let y' := vred (vadd y (vscale (t' - t) (f t y))) in
      y' :: euler_steps f budget' t' y' ts'
  | _, _ => []
  end.

(** A small integrator of that kind: forward Euler on the grid [t_eval],
    giving up after [budget] steps.  As scipy's integrators do when they
    fail, it then returns the samples it has reached. *)
Definition euler_ivp (budget : nat) : solver :=
  fun f t_span y0 t_eval =>
    match t_eval with
    | [] => {| sol_t := []; sol_y := [] |}
    | t0 :: ts =>
        {| sol_t := take (budget + 1) t_eval;
           sol_y := y0 :: euler_steps f budget t0 y0 ts |}
    end.

(** ** Final statistics (jam_app.py, lines 95-100) *)

(** [a[-1]]: the last entry of an array, IndexError when it is empty. *)
Definition py_last {A : Type} (a : list A) : option A := last a.

(** The larger of two floats as [np.max] takes it: NaN is propagated. *)
Definition ext_max (x y : ext) : ext :=
  match x, y with
  | NaN, _ | _, NaN => NaN
  | PosInf, _ | _, PosInf => PosInf
  | NegInf, z | z, NegInf => z
  | Finite a, Finite b => if Qle_bool a b then Finite b else Finite a
  end.

(** [np.max(a)]: ValueError on an empty array. *)
Definition np_max (a : list ext) : option ext :=
  match a with
  | [] => None
  | x :: a' => Some (foldl ext_max x a')
  end.

(** The five values of lines 97-100, in the order in which the script
    evaluates them, before they are formatted: the final S, I and R, the
    maximum of Rt and the final Rt.  [None] is an exception. *)
Definition final_statistics
    (r : list Q * list Q * list Q * list Q * list ext)
    : option (Q * Q * Q * ext * ext) :=
  s ← py_last (out_S r);
  i ← py_last (out_I r);
  r' ← py_last (out_R r);
  m ← np_max (out_Rt r);
  f ← py_last (out_Rt r);
  Some (s, i, r', m, f).

(** ** Display of the results (jam_app.py, lines 70-100) *)

(** [ax.plot(x, y)]: ValueError unless [x] and [y] have the same length. *)
Definition plot {A B : Type} (x : list A) (y : list B) : option unit :=
  if decide (length x = length y) then Some () else None.

(** Lines 70-100: the four curves are drawn against the sample times, then
    the final statistics are computed.  [None] is an exception. *)
Definition show_results
    (r : list Q * list Q * list Q * list Q * list ext)
    : option (Q * Q * Q * ext * ext) :=
  _ ← plot (out_t r) (out_S r);
  _ ← plot (out_t r) (out_I r);
  _ ← plot (out_t r) (out_R r);
  _ ← plot (out_t r) (out_Rt r);
  final_statistics r.

(** ** Finite precision *)

(** The nearest integer, ties to the even one. *)
Definition round_half_even (q : Q) : Z :=
  let f := Qfloor q in
  match Qcompare (q - inject_Z f) (1 # 2) with
  | Lt => f
  | Gt => (f + 1)%Z
  | Eq => if Z.even f then f else (f + 1)%Z
  end.

(** The binary exponent of a non-zero number: the integer part of the
    logarithm of [|x|] in base 2. *)
Definition ilog2 (x : Q) : Z :=
  let k := (Z.log2 (Z.abs (Qnum x)) - Z.log2 (Zpos (Qden x)))%Z in
  if Qle_bool (2 ^ k) (Qabs x) then k else (k - 1)%Z.

(** A positive number rounded to [prec] significant bits. *)
Definition fl_pos (prec : Z) (x : Q) : Q :=
  let e := (ilog2 x - (prec - 1))%Z in
  Qred (inject_Z (round_half_even (x / 2 ^ e)) * 2 ^ e).

(** Rounding to nearest, ties to even, on [prec] significant bits and with
    no bound on the exponent: for [prec = 53] the rounding of binary64 as
    long as nothing overflows or underflows. *)
Definition fl (prec : Z) (x : Q) : Q :=
  match Qcompare x 0 with
  | Eq => 0
  | Gt => fl_pos prec x
  | Lt => - fl_pos prec (- x)
  end.

(** [jam_model] with the result of every operation of lines 53-55 rounded. *)
Definition jam_model_rnd (rnd : Q -> Q) (t : Q) (y : state)
    (Λ β θ γ μ_S μ_I : Q) : state :=
  let S := y.1.1 in
  let I := y.1.2 in
  let R := y.2 in
  let dSdt := rnd (rnd (Λ - rnd (rnd (β * S) * I)) - rnd (μ_S * S)) in
  let dIdt :=
    rnd (rnd (rnd (rnd (rnd (1 + θ) * β) * S) * I) - rnd (rnd (γ + μ_I) * I)) in
  let dRdt := rnd (rnd (rnd (γ * I) + rnd (μ_S * S)) + rnd (μ_I * I)) in
  (dSdt, dIdt, dRdt).

(** [Rt_point] with the result of every operation of line 64 rounded. *)
Definition Rt_point_rnd (rnd : Q -> Q) (θ β γ μ_I s : Q) : ext :=
  let n := rnd (rnd (rnd (1 + θ) * β) * s) in
  let d := rnd (γ + μ_I) in
  if Qeq_bool d 0 then
    match n ?= 0 with
    | Gt => PosInf
    | Lt => NegInf
    | Eq => NaN
    end
  else Finite (rnd (n / d)).

(** [(1 + u)^k]: the growth of a relative error [u] over [k] roundings. *)
Fixpoint upow (u : Q) (k : nat) : Q :=
  match k with
  | O => 1
  | Datatypes.S k' => (1 + u) * upow u k'
  end.

(** The size of the terms of the three derivatives, each counted as often
    as it occurs in lines 53-55. *)
Definition flux_scale (y : state) (Λ β θ γ μ_S μ_I : Q) : Q :=
  let S := Qabs y.1.1 in
  let I := Qabs y.1.2 in
  Qabs Λ + (1 + Qabs (1 + θ)) * (Qabs β * S * I) + 2 * (Qabs μ_S * S)
  + (Qabs (γ + μ_I) + Qabs γ + Qabs μ_I) * I.

(** [x'] is a value computed for [x] with at most [k] roundings on the
    way, where [M] bounds the size of the terms [x] is made of. *)
Definition within (u : Q) (k : nat) (x' x M : Q) : Prop :=
  Qabs x <= M /\ Qabs (x' - x) <= (upow u k - 1) * M.

(** ** Binary64 *)

Module Binary64.
Import PrimFloat.
#[local] Open Scope float_scope.

(** The exact value of a finite float; 0 stands in for the infinities and
    NaN, which the statements below rule out first. *)
Definition to_Q (x : float) : Q :=
  match FloatOps.Prim2SF x with
  | SpecFloat.S754_finite s m e =>
      Qred ((if s then -1 else 1) * inject_Z (Zpos m) * 2 ^ e)%Q
  | _ => 0%Q
  end.

Definition finite (x : float) : bool :=
  match FloatOps.Prim2SF x with
  | SpecFloat.S754_finite _ _ _ | SpecFloat.S754_zero _ => true
  | _ => false
  end.

(** Lines 51-56 on floats; the ints Λ and θ are taken as the floats Python
    converts them to. *)
Definition jam_model (t : float) (y : float * float * float)
    (Λ β θ γ μ_S μ_I : float) : float * float * float :=
  let S := y.1.1 in
  let I := y.1.2 in
  let R := y.2 in
  let dSdt := Λ - β * S * I - μ_S * S in
  let dIdt := (1 + θ) * β * S * I - (γ + μ_I) * I in
  let dRdt := γ * I + μ_S * S + μ_I * I in
  (dSdt, dIdt, dRdt).

(** One element of line 64 on floats. *)
Definition Rt_point (θ β γ μ_I s : float) : float :=
  ((1 + θ) * β * s) / (γ + μ_I).

(** The slider defaults of lines 40, 43 and 44 at S0 = 6768, I0 = 34000. *)
Definition β_default : float := 9 / (6768 * 34000).
Definition μ_S_default : float := 450 / 6768.
Definition μ_I_default : float := 250 / 34000.

(** The value of S at which the default rates give Rt = 1, as a float. *)
Definition S_threshold : float := 18800 / 3.

End Binary64.

(** * Properties *)

(** ** Division *)

Lemma Qeq_bool_false (a b : Q) : ~ a == b -> Qeq_bool a b = false.
Proof.
  intros Hne. destruct (Qeq_bool a b) eqn:E; [|reflexivity].
  apply Qeq_bool_iff in E. contradiction.
Qed.

Lemma np_divide_nonzero (a b : Q) : ~ b == 0 -> np_divide a b = Finite (a / b).
Proof. intros Hb. unfold np_divide. now rewrite Qeq_bool_false. Qed.

Lemma np_divide_zero (a b : Q) :
  b == 0 ->
  np_divide a b
    = match a ?= 0 with Gt => PosInf | Lt => NegInf | Eq => NaN end.
Proof.
  intros Hb. unfold np_divide.
  apply Qeq_bool_iff in Hb. now rewrite Hb.
Qed.

Lemma np_divide_zero_not_finite (a b : Q) :
  b == 0 -> is_finite (np_divide a b) = false.
Proof.
  intros Hb. rewrite (np_divide_zero a b Hb). now destruct (a ?= 0).
Qed.

(** ** The vector field *)

(** C1: for every time, state and parameters the vector field returns
    exactly the triple
      dS/dt = Λ − β·S·I − μ_S·S,
      dI/dt = (1+θ)·β·S·I − (γ+μ_I)·I,
      dR/dt = γ·I + μ_S·S + μ_I·I,
    and the result does not depend on the time argument. *)
Theorem jam_model_equations (t t' S I R Λ β θ γ μ_S μ_I : Q) :
  jam_model t (S, I, R) Λ β θ γ μ_S μ_I
    = (Λ - β * S * I - μ_S * S,
       (1 + θ) * β * S * I - (γ + μ_I) * I,
       γ * I + μ_S * S + μ_I * I)
  /\ jam_model t (S, I, R) Λ β θ γ μ_S μ_I
     = jam_model t' (S, I, R) Λ β θ γ μ_S μ_I.
Proof. split; reflexivity. Qed.

(** In exact arithmetic the three derivatives add up to Λ + θ·β·S·I: the
    removal and decay terms cancel between the compartments. *)
Lemma jam_model_total_exact (t S I R Λ β θ γ μ_S μ_I : Q) :
  let d := jam_model t (S, I, R) Λ β θ γ μ_S μ_I in
  dS d + dI d + dR d == Λ + θ * β * S * I.
Proof. cbn. ring. Qed.




(** ** Sample times *)

Section Linspace.
Variables (start stop : Q) (num : nat).
Hypothesis num_gt_1 : (1 < num)%nat.

Let step : Q := (stop - start) / inject_Z (Z.of_nat num - 1).

Lemma linspace_length : length (linspace start stop num) = num.
Proof.
  unfold linspace. destruct (Nat.ltb_spec 1 num) as [_|]; [|lia].
  now rewrite length_insert, length_fmap, length_seq.
Qed.

Lemma linspace_lookup (i : nat) :
  (i < num)%nat ->
  linspace start stop num !! i
    = Some (if decide (i = pred num) then stop
            else inject_Z (Z.of_nat i) * step + start).
Proof.
  intros Hi. unfold linspace.
  destruct (Nat.ltb_spec 1 num) as [_|]; [|lia].
  destruct (decide (i = pred num)) as [->|Hne].
  - apply list_lookup_insert_eq. rewrite length_fmap, length_seq. lia.
  - rewrite list_lookup_insert_ne by congruence.
    rewrite list_lookup_fmap, lookup_seq_lt by exact Hi. reflexivity.
Qed.

Lemma divisor_pos : 0 < inject_Z (Z.of_nat num - 1).
Proof. change 0 with (inject_Z 0). rewrite <- Zlt_Qlt. lia. Qed.

(** In exact arithmetic the stored endpoint is the value of the formula,
    so every sample is [start + i * step]. *)
Lemma linspace_value (i : nat) (v : Q) :
  linspace start stop num !! i = Some v ->
  (i < num)%nat /\ v == start + inject_Z (Z.of_nat i) * step.
Proof.
  intros Hv.
  assert (Hi : (i < num)%nat).
  { apply lookup_lt_Some in Hv. now rewrite linspace_length in Hv. }
  split; [exact Hi|].
  rewrite (linspace_lookup i Hi) in Hv. injection Hv as <-.
  destruct (decide (i = pred num)) as [->|_]; [|ring].
  replace (Z.of_nat (pred num)) with (Z.of_nat num - 1)%Z by lia.
  pose proof divisor_pos. unfold step. field. lra.
Qed.

Lemma step_pos : start < stop -> 0 < step.
Proof.
  intros Hlt. unfold step. apply Qlt_shift_div_l; [apply divisor_pos|lra].
Qed.

Lemma linspace_increasing (i j : nat) (a b : Q) :
  start < stop -> (i < j)%nat ->
  linspace start stop num !! i = Some a ->
  linspace start stop num !! j = Some b ->
  a < b.
Proof.
  intros Hlt Hij Ha Hb.
  apply linspace_value in Ha as [_ ->]. apply linspace_value in Hb as [_ ->].
  pose proof (step_pos Hlt) as Hs.
  assert (Hz : inject_Z (Z.of_nat i) < inject_Z (Z.of_nat j))
    by (rewrite <- Zlt_Qlt; lia).
  nra.
Qed.

Lemma linspace_spacing (i : nat) (a b : Q) :
  linspace start stop num !! i = Some a ->
  linspace start stop num !! (i + 1)%nat = Some b ->
  b - a == step.
Proof.
  intros Ha Hb.
  apply linspace_value in Ha as [_ ->]. apply linspace_value in Hb as [_ ->].
  replace (Z.of_nat (i + 1)) with (Z.of_nat i + 1)%Z by lia.
  rewrite inject_Z_plus. change (inject_Z 1) with 1. ring.
Qed.
End Linspace.

(** ** The runner *)

Section Runner.
Variable solve_ivp : solver.
Variables (y0 : state) (Λ β θ γ μ_S μ_I T : Q).

Let t_eval : list Q := linspace 0 T 1000.
Let sol : OdeResult :=
  solve_ivp (fun t y => jam_model t y Λ β θ γ μ_S μ_I) (0, T) y0 t_eval.
Let r := run_simulation solve_ivp y0 Λ β θ γ μ_S μ_I T.

Lemma out_t_eq : out_t r = linspace 0 T 1000.
Proof. reflexivity. Qed.

Lemma out_S_eq : out_S r = (fun c : state => c.1.1) <$> sol_y sol.
Proof. reflexivity. Qed.

Lemma out_I_eq : out_I r = (fun c : state => c.1.2) <$> sol_y sol.
Proof. reflexivity. Qed.

Lemma out_R_eq : out_R r = (fun c : state => c.2) <$> sol_y sol.
Proof. reflexivity. Qed.

Lemma out_Rt_eq : out_Rt r = Rt_point θ β γ μ_I <$> out_S r.
Proof. reflexivity. Qed.

(** C2: at every index the derived series is the formula
    ((1+θ)·β·S[i]) / (γ+μ_I) applied to the entry of the S trajectory that
    the same run returns. *)
Theorem run_simulation_Rt_pointwise (i : nat) :
  out_Rt r !! i
    = (fun s => np_divide ((1 + θ) * β * s) (γ + μ_I)) <$> (out_S r !! i).
Proof. rewrite out_Rt_eq. apply list_lookup_fmap. Qed.

(** C9: when γ + μ_I = 0 the run still returns, with one Rt entry per
    sample, and every entry is the outcome of a division by zero: an
    infinity carrying the sign of (1+θ)·β·S[i], or NaN when that is 0. *)
Theorem run_simulation_Rt_zero_divisor :
  γ + μ_I == 0 ->
  length (out_Rt r) = length (out_S r) /\
  Forall (fun x => is_finite x = false) (out_Rt r) /\
  forall (i : nat) (s : Q),
    out_S r !! i = Some s ->
    out_Rt r !! i
      = Some (match (1 + θ) * β * s ?= 0 with
              | Gt => PosInf
              | Lt => NegInf
              | Eq => NaN
              end).
Proof.
  intros Hz. rewrite out_Rt_eq. split; [apply length_fmap|]. split.
  - apply Forall_fmap, Forall_forall. intros s _.
    apply np_divide_zero_not_finite, Hz.
  - intros i s Hs. rewrite list_lookup_fmap, Hs. cbn.
    unfold Rt_point. now rewrite np_divide_zero.
Qed.

(** C6: for T > 0 the returned time sequence has exactly 1000 elements,
    starts at 0, ends at T, is strictly increasing and evenly spaced, with
    spacing T/999. *)
Theorem run_simulation_times :
  0 < T ->
  length (out_t r) = 1000%nat /\
  (exists a, out_t r !! 0%nat = Some a /\ a == 0) /\
  out_t r !! 999%nat = Some T /\
  (forall (i j : nat) (a b : Q),
     (i < j)%nat -> out_t r !! i = Some a -> out_t r !! j = Some b -> a < b) /\
  (forall (i : nat) (a b : Q),
     out_t r !! i = Some a -> out_t r !! (i + 1)%nat = Some b ->
     b - a == T / 999).
Proof.
  intros HT. rewrite out_t_eq.
  assert (Hnum : (1 < 1000)%nat) by lia.
  split; [apply linspace_length, Hnum|]. split.
  - pose proof (linspace_lookup 0 T 1000 Hnum 0 ltac:(lia)) as H0.
    eexists. split; [exact H0|].
    destruct (linspace_value 0 T 1000 Hnum 0 _ H0) as [_ E]. rewrite E.
    change (inject_Z (Z.of_nat 0)) with 0. ring.
  - split; [apply (linspace_lookup 0 T 1000 Hnum 999); lia|]. split.
    + intros i j a b. apply linspace_increasing; assumption.
    + intros i a b Ha Hb.
      rewrite (linspace_spacing 0 T 1000 Hnum i a b Ha Hb).
      change (inject_Z (Z.of_nat 1000 - 1)) with 999. field.
Qed.

End Runner.

(** ** Integrators and fields without dynamics *)

Lemma state_eq_refl (a : state) : state_eq a a.
Proof. repeat split; reflexivity. Qed.

Lemma state_eq_trans (a b c : state) :
  state_eq a b -> state_eq b c -> state_eq a c.
Proof.
  intros (H1 & H2 & H3) (K1 & K2 & K3).
  repeat split; etransitivity; eassumption.
Qed.

Lemma vred_eq (a : state) : state_eq (vred a) a.
Proof. repeat split; apply Qred_correct. Qed.

Section ZeroField.
Variable f : Q -> state -> state.
Hypothesis f_zero : forall t y, state_eq (f t y) vzero.

Lemma slope_sum_zero (stages : list (Q * Q * state)) :
  state_eq (slope_sum f stages) vzero.
Proof.
  induction stages as [|[[b t] y] stages IH]; [apply state_eq_refl|].
  destruct (f_zero t y) as (F1 & F2 & F3). destruct IH as (H1 & H2 & H3).
  cbn in *. repeat split; cbn; rewrite ?F1, ?F2, ?F3, ?H1, ?H2, ?H3; ring.
Qed.

(** By induction on the steps: with a field that vanishes everywhere the
    integrator never leaves the initial state. *)
Lemma rk_reach_zero (y0 y : state) : rk_reach f y0 y -> state_eq y y0.
Proof.
  induction 1 as [y Hy | y y' h stages _ IH Hy']; [exact Hy|].
  apply (state_eq_trans _ _ _ Hy').
  destruct (slope_sum_zero stages) as (Z1 & Z2 & Z3).
  destruct IH as (H1 & H2 & H3).
  cbn in *. repeat split; cbn; rewrite ?Z1, ?Z2, ?Z3, ?H1, ?H2, ?H3; ring.
Qed.
End ZeroField.

Lemma euler_steps_reach (f : Q -> state -> state) (y0 : state) (budget : nat) :
  forall (t : Q) (y : state) (ts : list Q),
    rk_reach f y0 y -> Forall (rk_reach f y0) (euler_steps f budget t y ts).
Proof.
  induction budget as [|budget IH]; intros t y ts Hy; [constructor|].
  destruct ts as [|t' ts]; [constructor|]. cbn [euler_steps].
  assert (Hy' : rk_reach f y0 (vred (vadd y (vscale (t' - t) (f t y))))).
  { apply (rk_step f y0 y _ (t' - t) [(1, t, y)] Hy).
    apply (state_eq_trans _ _ _ (vred_eq _)).
    cbn. repeat split; cbn; ring. }
  constructor; [exact Hy'|]. apply IH, Hy'.
Qed.

Lemma euler_ivp_rk (budget : nat) : rk_solver (euler_ivp budget).
Proof.
  intros f t_span y0 [|t0 ts]; cbn; [constructor|].
  assert (H0 : rk_reach f y0 y0) by apply rk_init, state_eq_refl.
  constructor; [exact H0|]. apply euler_steps_reach, H0.
Qed.

Lemma euler_steps_length (f : Q -> state -> state) (budget : nat) :
  forall (t : Q) (y : state) (ts : list Q),
    length (euler_steps f budget t y ts) = Nat.min budget (length ts).
Proof.
  induction budget as [|budget IH]; intros t y [|t' ts]; cbn; try reflexivity.
  now rewrite IH.
Qed.

Lemma jam_model_no_rates (t : Q) (y : state) (Λ β θ γ μ_S μ_I : Q) :
  Λ == 0 -> β == 0 -> μ_S == 0 -> μ_I == 0 -> γ == 0 ->
  state_eq (jam_model t y Λ β θ γ μ_S μ_I) vzero.
Proof.
  intros HΛ Hβ HS HI Hγ. destruct y as [[S I] R].
  repeat split; cbn; rewrite ?HΛ, ?Hβ, ?HS, ?HI, ?Hγ; ring.
Qed.

(** C7: with Λ = β = μ_S = μ_I = γ = 0 the vector field is zero at every
    time and state, and every sample of the run has S = S0 and I = I0, for
    an integrator that advances by weighted sums of evaluations of the
    field. *)
Theorem run_simulation_no_dynamics (solve_ivp : solver)
    (S0 I0 R0 Λ β θ γ μ_S μ_I T : Q) :
  rk_solver solve_ivp ->
  Λ == 0 -> β == 0 -> μ_S == 0 -> μ_I == 0 -> γ == 0 ->
  let r := run_simulation solve_ivp (S0, I0, R0) Λ β θ γ μ_S μ_I T in
  (forall t y, state_eq (jam_model t y Λ β θ γ μ_S μ_I) vzero) /\
  Forall (fun s => s == S0) (out_S r) /\
  Forall (fun i => i == I0) (out_I r).
Proof.
  intros Hrk HΛ Hβ HS HI Hγ r.
  assert (Hzero : forall t y, state_eq (jam_model t y Λ β θ γ μ_S μ_I) vzero)
    by (intros t y; now apply jam_model_no_rates).
  split; [exact Hzero|].
  pose proof (Hrk (fun t y => jam_model t y Λ β θ γ μ_S μ_I) (0, T)
                (S0, I0, R0) (linspace 0 T 1000)) as Hcols.
  subst r. rewrite out_S_eq, out_I_eq.
  split; apply Forall_fmap; (eapply Forall_impl; [exact Hcols|]);
    intros c Hc; apply (rk_reach_zero _ Hzero) in Hc;
    destruct Hc as (H1 & H2 & H3); cbn; assumption.
Qed.

Lemma run_simulation_no_dynamics_witness :
  rk_solver (euler_ivp 999) /\
  Forall (fun s => s == 6768)
    (out_S (run_simulation (euler_ivp 999) (6768, 34000, 0) 0 0 29 0 0 0 50)) /\
  Forall (fun i => i == 34000)
    (out_I (run_simulation (euler_ivp 999) (6768, 34000, 0) 0 0 29 0 0 0 50)).
Proof.
  split; [apply euler_ivp_rk|].
  apply (run_simulation_no_dynamics (euler_ivp 999) 6768 34000 0 0 0 29 0 0 0 50
           (euler_ivp_rk 999)); reflexivity.
Defined.

(** ** Concrete runs *)

Lemma run_simulation_Rt_zero_divisor_witness :
  0 + 0 == 0 /\
  length (out_Rt (run_simulation (euler_ivp 999) (6768, 34000, 0)
                    0 0 29 0 0 0 50))
    = length (out_S (run_simulation (euler_ivp 999) (6768, 34000, 0)
                       0 0 29 0 0 0 50)) /\
  Forall (fun x => is_finite x = false)
    (out_Rt (run_simulation (euler_ivp 999) (6768, 34000, 0) 0 0 29 0 0 0 50)).
Proof.
  split; [reflexivity|].
  destruct (run_simulation_Rt_zero_divisor (euler_ivp 999) (6768, 34000, 0)
              0 0 29 0 0 0 50) as (Hlen & Hinf & _); [reflexivity|].
  split; [exact Hlen|exact Hinf].
Defined.

Lemma run_simulation_times_witness :
  0 < 50 /\
  length (out_t (run_simulation (euler_ivp 999) (6768, 34000, 0)
                   2262 (9 / (6768 * 34000)) 29 0 (450 / 6768) (250 / 34000)
                   50)) = 1000%nat /\
  out_t (run_simulation (euler_ivp 999) (6768, 34000, 0)
           2262 (9 / (6768 * 34000)) 29 0 (450 / 6768) (250 / 34000) 50)
    !! 999%nat = Some 50.
Proof.
  split; [reflexivity|].
  destruct (run_simulation_times (euler_ivp 999) (6768, 34000, 0)
              2262 (9 / (6768 * 34000)) 29 0 (450 / 6768) (250 / 34000) 50)
    as (Hlen & _ & Hlast & _); [reflexivity|].
  split; [exact Hlen|exact Hlast].
Defined.

(** C8: with the baseline values S0 = 6768, I0 = 34000,
    β = 9/(6768·34000), θ = 29, γ = 0 and μ_I = 250/34000, which are the
    values of a first visit, the derived metric at the initial state is
    ((1+29)·β·6768)/(0+250/34000) and equals 27/25 = 1.08. *)
Theorem baseline_Rt_initial :
  exists (sb : sidebar_values) (q : Q),
    sidebar first_visit ∅ = Some sb /\
    (sb_S0 sb, sb_I0 sb, sb_β sb, sb_θ sb, sb_γ sb, sb_μ_I sb)
      = (6768, 34000, 9 / (6768 * 34000), 29, 0, 250 / 34000) /\
    Rt_point (sb_θ sb) (sb_β sb) (sb_γ sb) (sb_μ_I sb) (sb_S0 sb) = Finite q /\
    Rt_point 29 (9 / (6768 * 34000)) 0 (250 / 34000) 6768 = Finite q /\
    q == ((1 + 29) * (9 / (6768 * 34000)) * 6768) / (0 + 250 / 34000) /\
    q == 27 # 25 /\
    q == 1.08.
Proof.
  eexists. eexists. split; [vm_compute; reflexivity|].
  split; [reflexivity|]. split; [vm_compute; reflexivity|].
  split; [vm_compute; reflexivity|]. repeat split; reflexivity.
Qed.

(** ** The reset button *)

Lemma py_div_Some (a b q : Q) : py_div a b = Some q -> q = a / b.
Proof. unfold py_div. destruct (Qeq_bool b 0); congruence. Qed.

(** For any initial conditions, a reset that goes through leaves
    250/S0 under the key of μ_S and 450/I0 under the key of μ_I, and the
    sliders then return these values. *)
Lemma reset_to_paper_baseline_decay (S0 I0 : Q) (ss ss' : gmap string Q) :
  reset_to_paper_baseline S0 I0 ss = Some ss' ->
  slider ss' "μ_S" (450 / S0) = 250 / S0 /\
  slider ss' "μ_I" (250 / I0) = 450 / I0.
Proof.
  unfold reset_to_paper_baseline, slider. intros H.
  destruct (py_div 9 (S0 * I0)) as [b|] eqn:Eb; [|discriminate].
  destruct (py_div 250 S0) as [m_S|] eqn:ES; [|discriminate].
  destruct (py_div 450 I0) as [m_I|] eqn:EI; [|discriminate].
  cbn in H. injection H as <-.
  apply py_div_Some in ES, EI. subst m_S m_I.
  rewrite lookup_insert_eq.
  rewrite lookup_insert_ne by discriminate. rewrite lookup_insert_eq.
  split; reflexivity.
Qed.

(** C3, on the code: a first visit gets μ_S = 450/S0 and μ_I = 250/I0 from
    the slider defaults, but pressing "Reset to paper baseline" yields
    μ_S = 250/S0 and μ_I = 450/I0: the two numerators are exchanged.  The
    other values of the preset are as the claim lists them. *)
Theorem reset_exchanges_decay_rates :
  sidebar first_visit ∅
    = Some {| sb_S0 := 6768; sb_I0 := 34000; sb_R0 := 0;
              sb_Λ := 2262; sb_β := 9 / (6768 * 34000); sb_θ := 29;
              sb_γ := 0; sb_μ_S := 450 / 6768; sb_μ_I := 250 / 34000;
              sb_T := 50 |} /\
  sidebar reset_click ∅
    = Some {| sb_S0 := 6768; sb_I0 := 34000; sb_R0 := 0;
              sb_Λ := 2262; sb_β := 9 / (6768 * 34000); sb_θ := 29;
              sb_γ := 0; sb_μ_S := 250 / 6768; sb_μ_I := 450 / 34000;
              sb_T := 50 |} /\
  ~ 250 / 6768 == 450 / 6768 /\
  ~ 450 / 34000 == 250 / 34000.
Proof.
  split; [vm_compute; reflexivity|]. split; [vm_compute; reflexivity|].
  split; intros H; vm_compute in H; discriminate H.
Qed.

(** * Further properties *)

(** ** The sidebar *)

Lemma py_div_zero (a b : Q) : b == 0 -> py_div a b = None.
Proof. intros Hb. unfold py_div. apply Qeq_bool_iff in Hb. now rewrite Hb. Qed.

Lemma py_div_nonzero (a b : Q) : ~ b == 0 -> py_div a b = Some (a / b).
Proof. intros Hb. unfold py_div. now rewrite Qeq_bool_false. Qed.

Lemma product_nonzero (a b : Q) : ~ a == 0 -> ~ b == 0 -> ~ a * b == 0.
Proof.
  intros Ha Hb Hab. destruct (Qmult_integral _ _ Hab); contradiction.
Qed.

(** A zero population makes one of the three scalar divisions of the
    sidebar raise, pressed button or not. *)
Lemma sidebar_zero (v : visitor) (ss : gmap string Q) :
  number_input (typed_S0 v) 6768 == 0 \/ number_input (typed_I0 v) 34000 == 0 ->
  sidebar v ss = None.
Proof.
  intros Hz. unfold sidebar, reset_to_paper_baseline.
  set (S0 := number_input (typed_S0 v) 6768) in *.
  set (I0 := number_input (typed_I0 v) 34000) in *.
  assert (Hprod : S0 * I0 == 0) by (destruct Hz as [-> | ->]; ring).
  rewrite (py_div_zero 9 _ Hprod). now destruct (clicked_reset v).
Qed.

(** The values of a run whose button was not pressed. *)
Lemma sidebar_plain (v : visitor) (ss : gmap string Q) :
  let S0 := number_input (typed_S0 v) 6768 in
  let I0 := number_input (typed_I0 v) 34000 in
  clicked_reset v = false -> ~ S0 == 0 -> ~ I0 == 0 ->
  sidebar v ss
    = Some {| sb_S0 := S0; sb_I0 := I0;
              sb_R0 := number_input (typed_R0 v) 0;
              sb_Λ := slider ss "Λ" 2262;
              sb_β := slider ss "β" (9 / (S0 * I0));
              sb_θ := slider ss "θ" 29;
              sb_γ := slider ss "γ" 0;
              sb_μ_S := slider ss "μ_S" (450 / S0);
              sb_μ_I := slider ss "μ_I" (250 / I0);
              sb_T := default 50 (moved_T v) |}.
Proof.
  intros S0 I0 Hc HS HI. unfold sidebar. fold S0 I0. rewrite Hc.
  rewrite (py_div_nonzero 9 _ (product_nonzero _ _ HS HI)).
  now rewrite (py_div_nonzero 450 _ HS), (py_div_nonzero 250 _ HI).
Qed.

(** The session state a reset leaves behind. *)
Lemma reset_to_paper_baseline_nonzero (S0 I0 : Q) (ss : gmap string Q) :
  ~ S0 == 0 -> ~ I0 == 0 ->
  reset_to_paper_baseline S0 I0 ss
    = Some (<["μ_I" := 450 / I0]> (<["μ_S" := 250 / S0]> (<["γ" := 0]>
             (<["θ" := 29]> (<["β" := 9 / (S0 * I0)]>
               (<["Λ" := 2262]> ss)))))).
Proof.
  intros HS HI. unfold reset_to_paper_baseline.
  rewrite (py_div_nonzero 9 _ (product_nonzero _ _ HS HI)).
  now rewrite (py_div_nonzero 250 _ HS), (py_div_nonzero 450 _ HI).
Qed.

Lemma reset_to_paper_baseline_Some (S0 I0 : Q) (ss ss' : gmap string Q) :
  reset_to_paper_baseline S0 I0 ss = Some ss' -> ~ S0 == 0 /\ ~ I0 == 0.
Proof.
  unfold reset_to_paper_baseline. intros H.
  destruct (Qeq_dec S0 0) as [HS|HS].
  - rewrite (py_div_zero 250 _ HS) in H.
    destruct (py_div 9 (S0 * I0)); discriminate H.
  - split; [exact HS|]. intros HI. rewrite (py_div_zero 450 _ HI) in H.
    destruct (py_div 9 (S0 * I0)); [|discriminate H].
    destruct (py_div 250 S0); discriminate H.
Qed.

(** The values of a run whose button was pressed. *)
Lemma sidebar_reset (v : visitor) (ss : gmap string Q) :
  let S0 := number_input (typed_S0 v) 6768 in
  let I0 := number_input (typed_I0 v) 34000 in
  clicked_reset v = true -> ~ S0 == 0 -> ~ I0 == 0 ->
  sidebar v ss
    = Some {| sb_S0 := S0; sb_I0 := I0;
              sb_R0 := number_input (typed_R0 v) 0;
              sb_Λ := 2262;
              sb_β := 9 / (S0 * I0);
              sb_θ := 29;
              sb_γ := 0;
              sb_μ_S := 250 / S0;
              sb_μ_I := 450 / I0;
              sb_T := default 50 (moved_T v) |}.
Proof.
  intros S0 I0 Hc HS HI. unfold sidebar. fold S0 I0. rewrite Hc.
  rewrite (reset_to_paper_baseline_nonzero S0 I0 ss HS HI).
  rewrite (py_div_nonzero 9 _ (product_nonzero _ _ HS HI)).
  rewrite (py_div_nonzero 450 _ HS), (py_div_nonzero 250 _ HI).
  cbn. unfold slider. now simplify_map_eq.
Qed.

(** X2: when the reset button is pressed the values handed to the runner do
    not depend on what the session state held before: all six sliders are
    overwritten. *)
Theorem reset_forgets_session (v : visitor) (ss ss' : gmap string Q) :
  clicked_reset v = true -> sidebar v ss = sidebar v ss'.
Proof.
  intros Hc.
  destruct (Qeq_dec (number_input (typed_S0 v) 6768) 0) as [HS|HS].
  { rewrite !sidebar_zero by now left. reflexivity. }
  destruct (Qeq_dec (number_input (typed_I0 v) 34000) 0) as [HI|HI].
  { rewrite !sidebar_zero by now right. reflexivity. }
  now rewrite (sidebar_reset v ss Hc HS HI), (sidebar_reset v ss' Hc HS HI).
Qed.

Lemma reset_forgets_session_witness :
  clicked_reset reset_click = true /\
  sidebar reset_click ∅ = sidebar reset_click (<["γ" := 0.05]> ∅).
Proof.
  split; [reflexivity|].
  apply (reset_forgets_session reset_click ∅ (<["γ" := 0.05]> ∅)).
  reflexivity.
Defined.

(** X3: pressing the reset button a second time changes nothing: a session
    state produced by a reset is a fixed point of the reset. *)
Theorem reset_idempotent (S0 I0 : Q) (ss ss' : gmap string Q) :
  reset_to_paper_baseline S0 I0 ss = Some ss' ->
  reset_to_paper_baseline S0 I0 ss' = Some ss'.
Proof.
  intros H. destruct (reset_to_paper_baseline_Some _ _ _ _ H) as [HS HI].
  rewrite (reset_to_paper_baseline_nonzero S0 I0 ss HS HI) in H.
  rewrite (reset_to_paper_baseline_nonzero S0 I0 ss' HS HI).
  injection H as <-. f_equal. apply map_eq. intros k.
  destruct (decide (k = "μ_I")) as [->|?]; [now simplify_map_eq|].
  destruct (decide (k = "μ_S")) as [->|?]; [now simplify_map_eq|].
  destruct (decide (k = "γ")) as [->|?]; [now simplify_map_eq|].
  destruct (decide (k = "θ")) as [->|?]; [now simplify_map_eq|].
  destruct (decide (k = "β")) as [->|?]; [now simplify_map_eq|].
  destruct (decide (k = "Λ")) as [->|?]; [now simplify_map_eq|].
  now rewrite !lookup_insert_ne by congruence.
Qed.

Lemma reset_idempotent_witness :
  reset_to_paper_baseline 6768 34000 ∅
    = Some (<["μ_I" := 450 / 34000]> (<["μ_S" := 250 / 6768]> (<["γ" := 0]>
             (<["θ" := 29]> (<["β" := 9 / (6768 * 34000)]>
               (<["Λ" := 2262]> ∅)))))) /\
  reset_to_paper_baseline 6768 34000
    (<["μ_I" := 450 / 34000]> (<["μ_S" := 250 / 6768]> (<["γ" := 0]>
      (<["θ" := 29]> (<["β" := 9 / (6768 * 34000)]> (<["Λ" := 2262]> ∅))))))
    = Some (<["μ_I" := 450 / 34000]> (<["μ_S" := 250 / 6768]> (<["γ" := 0]>
             (<["θ" := 29]> (<["β" := 9 / (6768 * 34000)]>
               (<["Λ" := 2262]> ∅)))))).
Proof.
  split; [reflexivity|].
  apply (reset_idempotent 6768 34000 ∅). reflexivity.
Defined.

(** X4: a reset touches the six slider keys and nothing else: afterwards
    each of the six keys has an entry, and every other key of the session
    state is as it was. *)
Theorem reset_changes_only_slider_keys (S0 I0 : Q) (ss ss' : gmap string Q) :
  reset_to_paper_baseline S0 I0 ss = Some ss' ->
  forall k : string,
    (k ∈ ["Λ"; "β"; "θ"; "γ"; "μ_S"; "μ_I"] -> is_Some (ss' !! k)) /\
    (k ∉ ["Λ"; "β"; "θ"; "γ"; "μ_S"; "μ_I"] -> ss' !! k = ss !! k).
Proof.
  intros H k. destruct (reset_to_paper_baseline_Some _ _ _ _ H) as [HS HI].
  rewrite (reset_to_paper_baseline_nonzero S0 I0 ss HS HI) in H.
  injection H as <-. split; intros Hk.
  - repeat (apply elem_of_cons in Hk as [-> | Hk]; [now simplify_map_eq|]).
    now apply elem_of_nil in Hk.
  - repeat (rewrite lookup_insert_ne;
              [|intros <-; apply Hk; repeat constructor]).
    reflexivity.
Qed.

Lemma reset_changes_only_slider_keys_witness :
  reset_to_paper_baseline 6768 34000 (<["T" := 50]> (∅ : gmap string Q))
    = Some (<["μ_I" := 450 / 34000]> (<["μ_S" := 250 / 6768]> (<["γ" := 0]>
             (<["θ" := 29]> (<["β" := 9 / (6768 * 34000)]>
               (<["Λ" := 2262]> (<["T" := 50]> (∅ : gmap string Q)))))))) /\
  (<["μ_I" := 450 / 34000]> (<["μ_S" := 250 / 6768]> (<["γ" := 0]>
     (<["θ" := 29]> (<["β" := 9 / (6768 * 34000)]>
       (<["Λ" := 2262]> (<["T" := 50]> (∅ : gmap string Q)))))))) !! "T"
    = (<["T" := 50]> (∅ : gmap string Q)) !! "T".
Proof.
  split; [reflexivity|].
  apply (reset_changes_only_slider_keys 6768 34000 (<["T" := 50]> (∅ : gmap string Q)) _
           eq_refl "T").
  intros Hk.
  repeat (apply elem_of_cons in Hk as [Hk | Hk]; [discriminate Hk|]).
  now apply elem_of_nil in Hk.
Defined.

(** ** More on the vector field *)

(** X8: with non-negative rates the field never points out of the
    non-negative states: where S = 0 it has dS/dt = Λ >= 0, where I = 0 it
    has dI/dt = 0, and the removed compartment never decreases. *)
Theorem jam_model_keeps_nonnegative (t S I R Λ β θ γ μ_S μ_I : Q) :
  0 <= Λ -> 0 <= γ -> 0 <= μ_S -> 0 <= μ_I -> 0 <= S -> 0 <= I ->
  let d := jam_model t (S, I, R) Λ β θ γ μ_S μ_I in
  (S == 0 -> dS d == Λ /\ 0 <= dS d) /\
  (I == 0 -> dI d == 0) /\
  0 <= dR d.
Proof.
  intros HΛ Hγ HμS HμI HS HI d. subst d. cbn. split; [|split].
  - intros E.
    assert (HdS : Λ - β * S * I - μ_S * S == Λ) by (rewrite E; ring).
    split; [exact HdS|]. rewrite HdS. exact HΛ.
  - intros E. rewrite E. ring.
  - nra.
Qed.

Lemma jam_model_keeps_nonnegative_witness :
  0 <= 2262 /\ 0 <= 0 /\ 0 <= 450 / 6768 /\ 0 <= 250 / 34000 /\
  0 <= 0 /\ 0 <= 34000 /\
  0 <= dR (jam_model 0 (0, 34000, 0) 2262 (9 / (6768 * 34000)) 29 0
             (450 / 6768) (250 / 34000)).
Proof.
  repeat (split; [discriminate|]).
  apply (jam_model_keeps_nonnegative 0 0 34000 0 2262 (9 / (6768 * 34000)) 29 0
           (450 / 6768) (250 / 34000)); discriminate.
Defined.

(** ** Sample times and the integration span *)

(** X12: for T >= 0 every requested sample time lies in the span [0, T]
    that the runner passes to the integrator as [t_span]. *)
Theorem run_simulation_times_in_span (solve_ivp : solver) (y0 : state)
    (Λ β θ γ μ_S μ_I T : Q) :
  0 <= T ->
  Forall (fun a => 0 <= a /\ a <= T)
    (out_t (run_simulation solve_ivp y0 Λ β θ γ μ_S μ_I T)).
Proof.
  intros HT. rewrite out_t_eq. apply Forall_lookup. intros i a Ha.
  assert (Hnum : (1 < 1000)%nat) by lia.
  destruct (linspace_value 0 T 1000 Hnum i a Ha) as [Hi ->].
  change (inject_Z (Z.of_nat 1000 - 1)) with 999.
  assert (H0 : 0 <= inject_Z (Z.of_nat i))
    by (change 0 with (inject_Z 0); rewrite <- Zle_Qle; lia).
  assert (H1 : inject_Z (Z.of_nat i) <= 999)
    by (change 999 with (inject_Z 999); rewrite <- Zle_Qle; lia).
  assert (E : 0 + inject_Z (Z.of_nat i) * ((T - 0) / 999)
              == inject_Z (Z.of_nat i) * T / 999) by field.
  rewrite E. split.
  - apply Qle_shift_div_l; [reflexivity|]. nra.
  - apply Qle_shift_div_r; [reflexivity|]. nra.
Qed.

Lemma run_simulation_times_in_span_witness :
  0 <= 50 /\
  Forall (fun a => 0 <= a /\ a <= 50)
    (out_t (run_simulation (euler_ivp 0) (6768, 34000, 0)
              2262 (9 / (6768 * 34000)) 29 0 (450 / 6768) (250 / 34000) 50)).
Proof.
  split; [discriminate|].
  apply (run_simulation_times_in_span (euler_ivp 0) (6768, 34000, 0)
           2262 (9 / (6768 * 34000)) 29 0 (450 / 6768) (250 / 34000) 50).
  discriminate.
Defined.

(** ** Final statistics *)

Lemma ext_max_not_finite (x y : ext) :
  is_finite x = false -> is_finite y = false -> is_finite (ext_max x y) = false.
Proof. destruct x, y; cbn; congruence. Qed.

Lemma np_max_not_finite (a : list ext) (m : ext) :
  Forall (fun x => is_finite x = false) a ->
  np_max a = Some m ->
  is_finite m = false.
Proof.
  intros Hinf Hm. destruct a as [|x a]; [discriminate Hm|].
  apply Forall_cons in Hinf as [Hx Hinf]. cbn in Hm. injection Hm as <-.
  revert x Hx. induction Hinf as [|y a Hy _ IH]; intros x Hx; [exact Hx|].
  cbn. apply IH, ext_max_not_finite; assumption.
Qed.

(** What a produced summary holds. *)
Lemma final_statistics_Some
    (r : list Q * list Q * list Q * list Q * list ext)
    (s i r' : Q) (m f : ext) :
  final_statistics r = Some (s, i, r', m, f) ->
  last (out_S r) = Some s /\ last (out_I r) = Some i /\
  last (out_R r) = Some r' /\ np_max (out_Rt r) = Some m /\
  last (out_Rt r) = Some f.
Proof.
  unfold final_statistics, py_last.
  destruct (last (out_S r)) as [s'|]; [|discriminate].
  destruct (last (out_I r)) as [i'|]; [|discriminate].
  destruct (last (out_R r)) as [r''|]; [|discriminate].
  destruct (np_max (out_Rt r)) as [m'|]; [|discriminate].
  destruct (last (out_Rt r)) as [f'|]; [|discriminate].
  intros [= <- <- <- <- <-]. repeat split; reflexivity.
Qed.

(** * Finite precision *)

(** ** Rounding to the nearest integer *)

Lemma round_half_even_near (q : Q) :
  Qabs (inject_Z (round_half_even q) - q) <= 1 # 2.
Proof.
  unfold round_half_even.
  pose proof (Qfloor_le q) as Hlo. pose proof (Qlt_floor q) as Hhi.
  rewrite inject_Z_plus in Hhi. change (inject_Z 1) with 1 in Hhi.
  apply Qabs_Qle_condition.
  destruct (Qcompare_spec (q - inject_Z (Qfloor q)) (1 # 2)) as [E|E|E].
  - destruct (Z.even (Qfloor q));
      rewrite ?inject_Z_plus; change (inject_Z 1) with 1; lra.
  - lra.
  - rewrite inject_Z_plus. change (inject_Z 1) with 1. lra.
Qed.

Lemma round_half_even_floor (q : Q) :
  round_half_even q = Qfloor q \/ round_half_even q = (Qfloor q + 1)%Z.
Proof.
  unfold round_half_even.
  destruct (Qcompare (q - inject_Z (Qfloor q)) (1 # 2));
    [destruct (Z.even (Qfloor q))|..]; auto.
Qed.

Lemma round_half_even_mono (a b : Q) :
  a <= b -> (round_half_even a <= round_half_even b)%Z.
Proof.
  intros Hab. pose proof (Qfloor_resp_le a b Hab) as Hf.
  destruct (Z.eq_dec (Qfloor a) (Qfloor b)) as [E|NE].
  - unfold round_half_even. rewrite <- E.
    destruct (Qcompare_spec (a - inject_Z (Qfloor a)) (1 # 2)) as [Ha|Ha|Ha];
      destruct (Qcompare_spec (b - inject_Z (Qfloor a)) (1 # 2)) as [Hb|Hb|Hb];
      try (destruct (Z.even (Qfloor a))); try lia; lra.
  - destruct (round_half_even_floor a) as [-> | ->];
      destruct (round_half_even_floor b) as [-> | ->]; lia.
Qed.

Lemma round_half_even_Z (z : Z) : round_half_even (inject_Z z) = z.
Proof.
  unfold round_half_even. rewrite Qfloor_Z.
  destruct (Qcompare_spec (inject_Z z - inject_Z z) (1 # 2)) as [E|E|E];
    [lra|reflexivity|lra].
Qed.

(** ** The binary exponent *)

Lemma two_pow_pos (k : Z) : 0 < 2 ^ k.
Proof. apply Qpower_0_lt. reflexivity. Qed.

Lemma two_pow_succ (k : Z) : 2 ^ (k + 1) == 2 * 2 ^ k.
Proof. rewrite Qpower_plus by discriminate. change (2 ^ 1) with 2. ring. Qed.

Lemma two_pow_Z (k : Z) : (0 <= k)%Z -> inject_Z (2 ^ k) == 2 ^ k.
Proof. intros Hk. now rewrite Zpower_Qpower. Qed.

Lemma ilog2_spec (x : Q) :
  0 < x -> 2 ^ ilog2 x <= x /\ x < 2 ^ (ilog2 x + 1).
Proof.
  intros Hx. unfold ilog2.
  destruct x as [n d]. cbn [Qnum Qden].
  assert (Hn : (0 < n)%Z).
  { unfold Qlt in Hx. cbn in Hx. lia. }
  rewrite (Z.abs_eq n) by lia.
  set (a := Z.log2 n). set (b := Z.log2 (Z.pos d)).
  assert (Ha0 : (0 <= a)%Z) by apply Z.log2_nonneg.
  assert (Hb0 : (0 <= b)%Z) by apply Z.log2_nonneg.
  destruct (Z.log2_spec n Hn) as [Ha1 Ha2]. fold a in Ha1, Ha2.
  destruct (Z.log2_spec (Z.pos d) ltac:(lia)) as [Hb1 Hb2]. fold b in Hb1, Hb2.
  rewrite Z.pow_succ_r in Ha2, Hb2 by assumption.
  rewrite Zle_Qle in Ha1, Hb1. rewrite Zlt_Qlt in Ha2, Hb2.
  rewrite inject_Z_mult in Ha2, Hb2.
  rewrite (two_pow_Z a Ha0) in Ha1, Ha2. rewrite (two_pow_Z b Hb0) in Hb1, Hb2.
  change (inject_Z 2) with 2 in Ha2, Hb2.
  set (x := n # d) in *.
  assert (Hxd : x * inject_Z (Z.pos d) == inject_Z n).
  { unfold x. rewrite (Qmake_Qdiv n d). field. discriminate. }
  assert (HA : 2 ^ a == 2 ^ (a - b) * 2 ^ b).
  { rewrite <- Qpower_plus by discriminate. now replace (a - b + b)%Z with a by lia. }
  pose proof (two_pow_pos (a - b)) as HP. pose proof (two_pow_pos b) as HB.
  set (P := 2 ^ (a - b)) in *. set (B := 2 ^ b) in *.
  set (D := inject_Z (Z.pos d)) in *. set (N := inject_Z n) in *.
  rewrite (Qabs_pos x) by lra.
  assert (Hup : x < 2 * P).
  { apply (Qmult_lt_r _ _ D); [lra|]. rewrite Hxd. nra. }
  assert (Hlow : P * (1 # 2) < x).
  { apply (Qmult_lt_r _ _ D); [lra|]. rewrite Hxd. nra. }
  destruct (Qle_bool P x) eqn:Ht.
  - apply Qle_bool_iff in Ht. split; [exact Ht|].
    rewrite two_pow_succ. exact Hup.
  - assert (Hlt : x < P).
    { apply Qnot_le_lt. intros H. apply Qle_bool_iff in H. congruence. }
    replace (a - b - 1 + 1)%Z with (a - b)%Z by lia. split; [|exact Hlt].
    assert (E : P == 2 * 2 ^ (a - b - 1)).
    { rewrite <- two_pow_succ. unfold P.
      now replace (a - b - 1 + 1)%Z with (a - b)%Z by lia. }
    lra.
Qed.

Lemma ilog2_mono (x y : Q) : 0 < x -> x <= y -> (ilog2 x <= ilog2 y)%Z.
Proof.
  intros Hx Hxy.
  destruct (ilog2_spec x Hx) as [Hlo _].
  destruct (ilog2_spec y ltac:(lra)) as [_ Hhi].
  assert (H : 2 ^ ilog2 x < 2 ^ (ilog2 y + 1)) by lra.
  apply Qpower_lt_compat_l_inv in H; [lia|reflexivity].
Qed.

(** ** Rounding to [prec] significant bits *)

Section Precision.
Variable prec : Z.
Hypothesis prec_pos : (1 <= prec)%Z.

(** The scaled significand of a positive number lies in
    [2^(prec-1), 2^prec). *)
Lemma significand_range (x : Q) :
  0 < x ->
  let e := (ilog2 x - (prec - 1))%Z in
  2 ^ (prec - 1) <= x / 2 ^ e /\ x / 2 ^ e < 2 ^ prec.
Proof.
  intros Hx e. destruct (ilog2_spec x Hx) as [Hlo Hhi].
  pose proof (two_pow_pos e) as He.
  assert (E1 : 2 ^ ilog2 x == 2 ^ (prec - 1) * 2 ^ e).
  { rewrite <- Qpower_plus by discriminate. unfold e.
    now replace (prec - 1 + (ilog2 x - (prec - 1)))%Z with (ilog2 x) by lia. }
  assert (E2 : 2 ^ (ilog2 x + 1) == 2 ^ prec * 2 ^ e).
  { rewrite <- Qpower_plus by discriminate. unfold e.
    now replace (prec + (ilog2 x - (prec - 1)))%Z with (ilog2 x + 1)%Z by lia. }
  split.
  - apply Qle_shift_div_l; [exact He|]. lra.
  - apply Qlt_shift_div_r; [exact He|]. lra.
Qed.

Lemma fl_pos_eq (x : Q) :
  fl_pos prec x
    == inject_Z (round_half_even (x / 2 ^ (ilog2 x - (prec - 1))))
       * 2 ^ (ilog2 x - (prec - 1)).
Proof. unfold fl_pos. apply Qred_correct. Qed.

(** A positive number is rounded inside its own binade. *)
Lemma fl_pos_binade (x : Q) :
  0 < x -> 2 ^ ilog2 x <= fl_pos prec x /\ fl_pos prec x <= 2 ^ (ilog2 x + 1).
Proof.
  intros Hx. rewrite fl_pos_eq. set (e := (ilog2 x - (prec - 1))%Z).
  destruct (significand_range x Hx) as [Hlo Hhi]. fold e in Hlo, Hhi.
  pose proof (two_pow_pos e) as He.
  assert (E1 : 2 ^ ilog2 x == 2 ^ (prec - 1) * 2 ^ e).
  { rewrite <- Qpower_plus by discriminate. unfold e.
    now replace (prec - 1 + (ilog2 x - (prec - 1)))%Z with (ilog2 x) by lia. }
  assert (E2 : 2 ^ (ilog2 x + 1) == 2 ^ prec * 2 ^ e).
  { rewrite <- Qpower_plus by discriminate. unfold e.
    now replace (prec + (ilog2 x - (prec - 1)))%Z with (ilog2 x + 1)%Z by lia. }
  rewrite <- (two_pow_Z (prec - 1)) in Hlo by lia.
  rewrite <- (two_pow_Z prec) in Hhi by lia.
  apply round_half_even_mono in Hlo. apply Qlt_le_weak in Hhi.
  apply round_half_even_mono in Hhi.
  rewrite round_half_even_Z in Hlo, Hhi.
  rewrite Zle_Qle in Hlo, Hhi.
  rewrite (two_pow_Z (prec - 1)) in Hlo by lia.
  rewrite (two_pow_Z prec) in Hhi by lia.
  rewrite E1, E2. split; apply Qmult_le_compat_r; lra.
Qed.


Lemma fl_pos_error (x : Q) :
  0 < x -> Qabs (fl_pos prec x - x) <= 2 ^ (- prec) * x.
Proof.
  intros Hx. rewrite fl_pos_eq. set (e := (ilog2 x - (prec - 1))%Z).
  destruct (ilog2_spec x Hx) as [Hlo _].
  pose proof (two_pow_pos e) as He. pose proof (two_pow_pos (- prec)) as Hp.
  pose proof (round_half_even_near (x / 2 ^ e)) as Hnear.
  set (m := inject_Z (round_half_even (x / 2 ^ e))) in *.
  assert (Ex : x == x / 2 ^ e * 2 ^ e) by (field; lra).
  assert (E : m * 2 ^ e - x == (m - x / 2 ^ e) * 2 ^ e).
  { rewrite Ex at 1. ring. }
  rewrite E, Qabs_Qmult, (Qabs_pos (2 ^ e)) by lra.
  assert (Ee : 2 ^ e * (1 # 2) == 2 ^ (- prec) * 2 ^ ilog2 x).
  { rewrite <- Qpower_plus by discriminate.
    replace (- prec + ilog2 x)%Z with (e + -1)%Z by (unfold e; lia).
    rewrite Qpower_plus by discriminate. reflexivity. }
  apply Qle_trans with ((1 # 2) * 2 ^ e).
  - apply Qmult_le_compat_r; lra.
  - apply Qle_trans with (2 ^ (- prec) * 2 ^ ilog2 x); [rewrite <- Ee; lra|].
    apply Qmult_le_l; [exact Hp|exact Hlo].
Qed.

Lemma fl_pos_mono (x y : Q) :
  0 < x -> x <= y -> fl_pos prec x <= fl_pos prec y.
Proof.
  intros Hx Hxy. assert (Hy : 0 < y) by lra.
  pose proof (ilog2_mono x y Hx Hxy) as HL.
  destruct (Z.eq_dec (ilog2 x) (ilog2 y)) as [E|NE].
  - rewrite !fl_pos_eq, <- E. set (e := (ilog2 x - (prec - 1))%Z).
    pose proof (two_pow_pos e) as He.
    apply Qmult_le_compat_r; [|lra]. rewrite <- Zle_Qle.
    apply round_half_even_mono. apply Qmult_le_compat_r; [exact Hxy|].
    apply Qlt_le_weak, Qinv_lt_0_compat, He.
  - destruct (fl_pos_binade x Hx) as [_ Hhi].
    destruct (fl_pos_binade y Hy) as [Hlo _].
    assert (H : 2 ^ (ilog2 x + 1) <= 2 ^ ilog2 y).
    { apply Qpower_le_compat_l; [lia|discriminate]. }
    lra.
Qed.

Lemma fl_proper (x y : Q) : x == y -> fl prec x == fl prec y.
Proof.
  intros E. unfold fl. rewrite <- E.
  destruct (Qcompare_spec x 0) as [H|H|H]; [reflexivity| |].
  - apply Qopp_comp.
    apply Qle_antisym; apply fl_pos_mono; lra.
  - apply Qle_antisym; apply fl_pos_mono; lra.
Qed.


(** The relative error of one rounding is at most 2^-prec. *)
Lemma fl_error (x : Q) : Qabs (fl prec x - x) <= 2 ^ (- prec) * Qabs x.
Proof.
  unfold fl. destruct (Qcompare_spec x 0) as [Hx|Hx|Hx].
  - assert (E0 : 0 - x == 0) by (rewrite Hx; ring).
    rewrite E0, Hx. change (Qabs 0) with 0. lra.
  - rewrite (Qabs_neg x) by lra.
    assert (E : - fl_pos prec (- x) - x == - (fl_pos prec (- x) - - x)) by ring.
    rewrite E, Qabs_opp. apply fl_pos_error. lra.
  - rewrite (Qabs_pos x) by lra. apply fl_pos_error, Hx.
Qed.
End Precision.



Lemma fl53_error (x : Q) : Qabs (fl 53 x - x) <= 2 ^ (-53) * Qabs x.
Proof. exact (fl_error 53 x). Qed.



(** ** The sign of dI/dt under rounding *)

Section RoundedSign.
Variable rnd : Q -> Q.
Hypothesis rnd_mono : forall x y, x <= y -> rnd x <= rnd y.
Hypothesis rnd_zero : rnd 0 == 0.
Hypothesis rnd_one : rnd 1 == 1.





End RoundedSign.

(** The inputs of the runs of binary64 below, as the rationals they are. *)
Lemma binary64_inputs :
  Binary64.to_Q Binary64.β_default = fl 53 (9 / fl 53 (6768 * 34000)) /\
  Binary64.to_Q Binary64.μ_S_default = fl 53 (450 / 6768) /\
  Binary64.to_Q Binary64.μ_I_default = fl 53 (250 / 34000) /\
  Binary64.to_Q Binary64.S_threshold = fl 53 (18800 / 3).
Proof. repeat split; vm_compute; reflexivity. Qed.


Module Binary64Facts.
Import PrimFloat.

(** The inequalities of C4 cannot be strict on the code: in binary64, at
    the default rates, S = 18800/3 and I = 34816 > 0, the derived metric is
    1 + 2^-52 > 1 while dI/dt is 0; the rounded model computes the same
    two values. *)
Lemma Rt_sign_not_strict :
  let Rt :=
    Binary64.Rt_point 29%float Binary64.β_default 0%float
      Binary64.μ_I_default Binary64.S_threshold in
  let d :=
    Binary64.jam_model 0%float (Binary64.S_threshold, 34816, 0)%float
      2262%float Binary64.β_default 29%float 0%float
      Binary64.μ_S_default Binary64.μ_I_default in
  ltb 1%float Rt = true /\
  eqb d.1.2 0%float = true /\
  Rt_point_rnd (fl 53) 29 (Binary64.to_Q Binary64.β_default) 0
    (Binary64.to_Q Binary64.μ_I_default) (Binary64.to_Q Binary64.S_threshold)
    = Finite (Binary64.to_Q Rt) /\
  dI (jam_model_rnd (fl 53) 0 (Binary64.to_Q Binary64.S_threshold, 34816, 0)
        2262 (Binary64.to_Q Binary64.β_default) 29 0
        (Binary64.to_Q Binary64.μ_S_default)
        (Binary64.to_Q Binary64.μ_I_default)) == 0.
Proof. repeat split; vm_compute; reflexivity. Qed.

(** C10 as stated fails on the code: in binary64, at the state (10, 10, 0)
    with Λ = 2262, θ = 29, γ = 0 and the default β, μ_S and μ_I, the three
    derivatives returned are finite floats whose sum is not
    Λ + θ·β·S·I. *)
Lemma total_flux_not_exact :
  let d :=
    Binary64.jam_model 0%float (10, 10, 0)%float 2262%float
      Binary64.β_default 29%float 0%float
      Binary64.μ_S_default Binary64.μ_I_default in
  (Binary64.finite d.1.1 && Binary64.finite d.1.2 && Binary64.finite d.2
   = true) /\
  ~ (Binary64.to_Q d.1.1 + Binary64.to_Q d.1.2 + Binary64.to_Q d.2
     == 2262 + 29 * Binary64.to_Q Binary64.β_default * 10 * 10)%Q.
Proof.
  split; [vm_compute; reflexivity|].
  intros H. vm_compute in H. discriminate H.
Qed.

(** At that state the rounded model computes the three floats of
    binary64. *)
Lemma flux_point_agrees :
  let d :=
    Binary64.jam_model 0%float (10, 10, 0)%float 2262%float
      Binary64.β_default 29%float 0%float
      Binary64.μ_S_default Binary64.μ_I_default in
  jam_model_rnd (fl 53) 0%Q (10, 10, 0)%Q 2262%Q
    (Binary64.to_Q Binary64.β_default) 29%Q 0%Q
    (Binary64.to_Q Binary64.μ_S_default) (Binary64.to_Q Binary64.μ_I_default)
    = (Binary64.to_Q d.1.1, Binary64.to_Q d.1.2, Binary64.to_Q d.2).
Proof. vm_compute. reflexivity. Qed.

End Binary64Facts.

(** ** The total of the three derivatives under rounding *)

Section RoundedFlux.
Variable rnd : Q -> Q.
Variable u : Q.
Hypothesis u_nonneg : 0 <= u.
Hypothesis rnd_err : forall x, Qabs (rnd x - x) <= u * Qabs x.

Lemma upow_ge_1 (k : nat) : 1 <= upow u k.
Proof. induction k as [|k IH]; cbn; [lra|nra]. Qed.

Lemma upow_le (k k' : nat) : (k <= k')%nat -> upow u k <= upow u k'.
Proof.
  induction 1 as [|k' _ IH]; [lra|].
  cbn. pose proof (upow_ge_1 k'). nra.
Qed.

Lemma within_exact (x : Q) : within u 0 x x (Qabs x).
Proof.
  split; [apply Qle_refl|]. assert (E : x - x == 0) by ring.
  rewrite E. change (Qabs 0) with 0. change (upow u 0) with 1. lra.
Qed.

Lemma within_weaken (k k' : nat) (x' x M : Q) :
  (k <= k')%nat -> within u k x' x M -> within u k' x' x M.
Proof.
  intros Hk [HM Hx]. split; [exact HM|].
  pose proof (upow_le k k' Hk). pose proof (Qabs_nonneg x). nra.
Qed.

(** One more rounding. *)
Lemma within_rnd (k : nat) (x' x M : Q) :
  within u k x' x M -> within u (Datatypes.S k) (rnd x') x M.
Proof.
  intros [HM Hx]. split; [exact HM|].
  pose proof (upow_ge_1 k) as Hp. pose proof (rnd_err x') as Hr.
  set (p := upow u k) in *. cbn [upow]. fold p.
  assert (Ha : Qabs x' <= M + (p - 1) * M).
  { apply Qabs_Qle_condition in HM, Hx. apply Qabs_Qle_condition. lra. }
  assert (Hu : u * Qabs x' <= u * (M + (p - 1) * M)) by nra.
  apply Qabs_Qle_condition in Hx, Hr. apply Qabs_Qle_condition.
  assert (E : ((1 + u) * p - 1) * M == u * (M + (p - 1) * M) + (p - 1) * M)
    by ring.
  rewrite E. lra.
Qed.

(** A product with an input of the function. *)
Lemma within_mul (k : nat) (x' x M w : Q) :
  within u k x' x M -> within u k (x' * w) (x * w) (M * Qabs w).
Proof.
  intros [HM Hx]. pose proof (Qabs_nonneg w) as Hw. split.
  - rewrite Qabs_Qmult. nra.
  - assert (E : x' * w - x * w == (x' - x) * w) by ring.
    rewrite E, Qabs_Qmult.
    assert (E' : (upow u k - 1) * (M * Qabs w)
                 == (upow u k - 1) * M * Qabs w) by ring.
    rewrite E'. nra.
Qed.

Lemma within_add (k : nat) (x' x M y' y N : Q) :
  within u k x' x M -> within u k y' y N ->
  within u k (x' + y') (x + y) (M + N).
Proof.
  intros [HM Hx] [HN Hy].
  apply Qabs_Qle_condition in HM, Hx, HN, Hy.
  split; apply Qabs_Qle_condition; lra.
Qed.

Lemma within_sub (k : nat) (x' x M y' y N : Q) :
  within u k x' x M -> within u k y' y N ->
  within u k (x' - y') (x - y) (M + N).
Proof.
  intros [HM Hx] [HN Hy].
  apply Qabs_Qle_condition in HM, Hx, HN, Hy.
  split; apply Qabs_Qle_condition; lra.
Qed.

(** A product of two inputs, rounded. *)
Lemma within_product (a b : Q) :
  within u 1 (rnd (a * b)) (a * b) (Qabs a * Qabs b).
Proof. apply within_rnd, within_mul, within_exact. Qed.

Lemma dS_within (S I Λ β μ_S : Q) :
  within u 4
    (rnd (rnd (Λ - rnd (rnd (β * S) * I)) - rnd (μ_S * S)))
    (Λ - β * S * I - μ_S * S)
    (Qabs Λ + Qabs β * Qabs S * Qabs I + Qabs μ_S * Qabs S).
Proof.
  apply within_rnd, within_sub.
  - apply within_rnd, within_sub.
    + apply (within_weaken 0); [lia|]. apply within_exact.
    + apply within_rnd, within_mul, within_product.
  - apply (within_weaken 1); [lia|]. apply within_product.
Qed.

Lemma dI_within (S I β θ γ μ_I : Q) :
  within u 5
    (rnd (rnd (rnd (rnd (rnd (1 + θ) * β) * S) * I) - rnd (rnd (γ + μ_I) * I)))
    ((1 + θ) * β * S * I - (γ + μ_I) * I)
    (Qabs (1 + θ) * Qabs β * Qabs S * Qabs I + Qabs (γ + μ_I) * Qabs I).
Proof.
  apply within_rnd, within_sub.
  - do 3 apply within_rnd, within_mul. apply within_rnd, within_exact.
  - apply (within_weaken 2); [lia|].
    apply within_rnd, within_mul, within_rnd, within_exact.
Qed.

Lemma dR_within (S I γ μ_S μ_I : Q) :
  within u 3
    (rnd (rnd (rnd (γ * I) + rnd (μ_S * S)) + rnd (μ_I * I)))
    (γ * I + μ_S * S + μ_I * I)
    (Qabs γ * Qabs I + Qabs μ_S * Qabs S + Qabs μ_I * Qabs I).
Proof.
  apply within_rnd, within_add.
  - apply within_rnd, within_add; apply within_product.
  - apply (within_weaken 1); [lia|]. apply within_product.
Qed.

(** C10, as amended: the three derivatives the code returns add up to
    Λ + θ·β·S·I up to rounding.  When every operation is rounded with a
    relative error of at most u, the difference is at most
    ((1+u)^5 - 1) times the size of the terms; without rounding (u = 0) the
    two are equal. *)
Theorem jam_model_total_flux_rounded (t S I R Λ β θ γ μ_S μ_I : Q) :
  let d := jam_model_rnd rnd t (S, I, R) Λ β θ γ μ_S μ_I in
  Qabs (dS d + dI d + dR d - (Λ + θ * β * S * I))
    <= (upow u 5 - 1) * flux_scale (S, I, R) Λ β θ γ μ_S μ_I.
Proof.
  intros d. subst d. unfold jam_model_rnd, flux_scale, dS, dI, dR.
  cbn [fst snd].
  pose proof (within_weaken 4 5 _ _ _ ltac:(lia) (dS_within S I Λ β μ_S)) as HS.
  pose proof (dI_within S I β θ γ μ_I) as HI.
  pose proof (within_weaken 3 5 _ _ _ ltac:(lia) (dR_within S I γ μ_S μ_I))
    as HR.
  destruct (within_add 5 _ _ _ _ _ _ (within_add 5 _ _ _ _ _ _ HS HI) HR)
    as [_ H].
  pose proof (jam_model_total_exact t S I R Λ β θ γ μ_S μ_I) as Hex.
  cbn in Hex. rewrite Hex in H.
  eapply Qle_trans; [exact H|]. apply Qle_lteq. right. ring.
Qed.
End RoundedFlux.

Lemma jam_model_total_flux_rounded_witness :
  0 <= 2 ^ (-53) /\
  (forall x, Qabs (fl 53 x - x) <= 2 ^ (-53) * Qabs x) /\
  Qabs (dS (jam_model_rnd (fl 53) 0 (10, 10, 0) 2262
              (fl 53 (9 / fl 53 (6768 * 34000))) 29 0
              (fl 53 (450 / 6768)) (fl 53 (250 / 34000)))
        + dI (jam_model_rnd (fl 53) 0 (10, 10, 0) 2262
                (fl 53 (9 / fl 53 (6768 * 34000))) 29 0
                (fl 53 (450 / 6768)) (fl 53 (250 / 34000)))
        + dR (jam_model_rnd (fl 53) 0 (10, 10, 0) 2262
                (fl 53 (9 / fl 53 (6768 * 34000))) 29 0
                (fl 53 (450 / 6768)) (fl 53 (250 / 34000)))
        - (2262 + 29 * fl 53 (9 / fl 53 (6768 * 34000)) * 10 * 10))
    <= (upow (2 ^ (-53)) 5 - 1)
       * flux_scale (10, 10, 0) 2262 (fl 53 (9 / fl 53 (6768 * 34000))) 29 0
           (fl 53 (450 / 6768)) (fl 53 (250 / 34000)).
Proof.
  split; [discriminate|]. split; [exact fl53_error|].
  apply (jam_model_total_flux_rounded (fl 53) (2 ^ (-53)) ltac:(discriminate)
           fl53_error 0 10 10 0 2262
           (fl 53 (9 / fl 53 (6768 * 34000))) 29 0
           (fl 53 (450 / 6768)) (fl 53 (250 / 34000))).
Defined.

(** * The script around the runner *)

(** X1: a zero initial population S0 or I0 makes the script raise before
    the simulation is run, whatever the session state holds, whether or not
    the reset button was pressed, and for every integrator. *)
Theorem run_model_raises_on_zero_population (solve_ivp : solver) (v : visitor)
    (ss : gmap string Q) :
  number_input (typed_S0 v) 6768 == 0 \/ number_input (typed_I0 v) 34000 == 0 ->
  run_model solve_ivp v ss = None.
Proof. intros Hz. unfold run_model. now rewrite (sidebar_zero v ss Hz). Qed.

Lemma run_model_raises_on_zero_population_witness :
  (number_input (Some 6768) 6768 == 0 \/ number_input (Some 0) 34000 == 0) /\
  run_model (euler_ivp 999)
    {| typed_S0 := Some 6768; typed_I0 := Some 0; typed_R0 := None;
       clicked_reset := true; moved_T := None |}
    (<["γ" := 0.05]> ∅) = None.
Proof.
  split; [right; reflexivity|].
  apply (run_model_raises_on_zero_population (euler_ivp 999)
           {| typed_S0 := Some 6768; typed_I0 := Some 0; typed_R0 := None;
              clicked_reset := true; moved_T := None |}).
  right. reflexivity.
Defined.

(** What it takes for lines 70-100 to go through. *)
Lemma show_results_is_Some
    (r : list Q * list Q * list Q * list Q * list ext) :
  is_Some (show_results r) <->
  length (out_t r) = length (out_S r) /\
  length (out_t r) = length (out_I r) /\
  length (out_t r) = length (out_R r) /\
  length (out_t r) = length (out_Rt r) /\
  out_S r <> [] /\ out_I r <> [] /\ out_R r <> [] /\ out_Rt r <> [].
Proof.
  unfold show_results, final_statistics, plot, py_last.
  destruct (decide (length (out_t r) = length (out_S r))) as [HS|HS];
    [|split; [intros [x Hx]; discriminate Hx|
       intros (? & ? & ? & ? & ? & _); congruence]].
  destruct (decide (length (out_t r) = length (out_I r))) as [HI|HI];
    [|split; [intros [x Hx]; discriminate Hx|
       intros (? & ? & ? & ? & ? & _); congruence]].
  destruct (decide (length (out_t r) = length (out_R r))) as [HR|HR];
    [|split; [intros [x Hx]; discriminate Hx|
       intros (? & ? & ? & ? & ? & _); congruence]].
  destruct (decide (length (out_t r) = length (out_Rt r))) as [HRt|HRt];
    [|split; [intros [x Hx]; discriminate Hx|
       intros (? & ? & ? & ? & ? & _); congruence]].
  cbn [mbind option_bind].
  destruct (out_S r) as [|s S];
    [split; [intros [x Hx]; discriminate Hx|
       intros (? & ? & ? & ? & ? & _); congruence]|].
  destruct (out_I r) as [|i I]; [cbn in *; lia|].
  destruct (out_R r) as [|r' R]; [cbn in *; lia|].
  destruct (out_Rt r) as [|f Rt]; [cbn in *; lia|].
  split; [intros _; repeat split; congruence|intros _].
  destruct (last (s :: S)) as [s'|] eqn:Es;
    [|apply last_None in Es; discriminate Es].
  destruct (last (i :: I)) as [i'|] eqn:Ei;
    [|apply last_None in Ei; discriminate Ei].
  destruct (last (r' :: R)) as [r''|] eqn:Er;
    [|apply last_None in Er; discriminate Er].
  destruct (last (f :: Rt)) as [f'|] eqn:Ef;
    [|apply last_None in Ef; discriminate Ef].
  cbn. eauto.
Qed.

Lemma show_results_final
    (r : list Q * list Q * list Q * list Q * list ext)
    (x : Q * Q * Q * ext * ext) :
  show_results r = Some x -> final_statistics r = Some x.
Proof.
  unfold show_results, plot.
  destruct (decide (length (out_t r) = length (out_S r))); [|discriminate].
  destruct (decide (length (out_t r) = length (out_I r))); [|discriminate].
  destruct (decide (length (out_t r) = length (out_R r))); [|discriminate].
  destruct (decide (length (out_t r) = length (out_Rt r))); [|discriminate].
  cbn [mbind option_bind]. auto.
Qed.

Section Display.
Variable solve_ivp : solver.
Variables (y0 : state) (Λ β θ γ μ_S μ_I T : Q).

(** X15: the plots and the final statistics are produced exactly when the
    integrator returned a value for each of the 1000 sample times; with any
    other number of samples the script raises. *)
Theorem show_results_iff_all_samples :
  is_Some (show_results (run_simulation solve_ivp y0 Λ β θ γ μ_S μ_I T)) <->
  length (sol_y (solve_ivp (fun t y => jam_model t y Λ β θ γ μ_S μ_I)
                   (0, T) y0 (linspace 0 T 1000))) = 1000%nat.
Proof.
  rewrite show_results_is_Some.
  rewrite out_Rt_eq, out_S_eq, out_I_eq, out_R_eq, out_t_eq.
  rewrite !length_fmap, linspace_length by lia.
  set (cols := sol_y _). split.
  - intros (H & _). symmetry. exact H.
  - intros H. repeat split; try (symmetry; exact H);
      destruct cols; try discriminate H; discriminate.
Qed.

(** X14: when γ + μ_I is zero and the results are shown, both the maximum
    and the final value of Rt in the statistics are an infinity or NaN. *)
Theorem show_results_zero_divisor (s i r' : Q) (m f : ext) :
  γ + μ_I == 0 ->
  show_results (run_simulation solve_ivp y0 Λ β θ γ μ_S μ_I T)
    = Some (s, i, r', m, f) ->
  is_finite m = false /\ is_finite f = false.
Proof.
  intros Hden Hshow. apply show_results_final in Hshow.
  destruct (final_statistics_Some _ _ _ _ _ _ Hshow)
    as (_ & _ & _ & Hm & Hf).
  assert (Hinf : Forall (fun x => is_finite x = false)
                   (out_Rt (run_simulation solve_ivp y0 Λ β θ γ μ_S μ_I T))).
  { rewrite out_Rt_eq. apply Forall_fmap, Forall_forall. intros x _.
    apply np_divide_zero_not_finite, Hden. }
  split; [exact (np_max_not_finite _ _ Hinf Hm)|].
  apply (proj1 (Forall_forall _ _) Hinf).
  apply last_Some_elem_of, Hf.
Qed.
End Display.

(** A run of 1000 samples in which S grows from 6768 to 2266506 while
    γ + μ_I = 0. *)
Lemma show_results_zero_divisor_witness :
  0 + 0 == 0 /\
  show_results
    (run_simulation (euler_ivp 999) (6768, 0, 0) 2262 (9 / (6768 * 34000))
       29 0 0 0 999)
    = Some (2266506, 0, 0, PosInf, PosInf) /\
  is_finite PosInf = false.
Proof.
  split; [reflexivity|]. split; [vm_compute; reflexivity|].
  apply (show_results_zero_divisor (euler_ivp 999) (6768, 0, 0) 2262
           (9 / (6768 * 34000)) 29 0 0 0 999 2266506 0 0 PosInf PosInf).
  - reflexivity.
  - vm_compute. reflexivity.
Defined.
